(** * deal_finder/tools.py: the financial calculators and their retry decorator

    A shallow embedding of [retry_on_rate_limit], [calculate_mortgage] and
    [calculate_cashflow].

    Numbers.  The calculators work on Python numbers (float, or int for
    [term_years]).  A float is modelled by the rational it denotes, with exact
    arithmetic: binary64 rounding, infinities and NaN are outside the model.
    What Python raises is kept: [/] raises ZeroDivisionError on a zero
    divisor, and so does [**] on a zero base with a negative exponent.

    Dictionaries.  A dict literal is the list of its (key, value) pairs in
    source order.

    Effects.  The decorator's wrapper calls the function, sleeps and logs; a
    run returns the outcome, the final state of whatever the function acts
    on, and the chronological list of these events. *)

From Stdlib Require Import ZArith QArith Qround Qpower Qreduction.
From Stdlib Require Import String Ascii List Bool Lia Lqa.
Import ListNotations.

Local Open Scope Q_scope.

(* ===================================================================== *)
(** ** Exceptions and outcomes *)

(** An exception instance: its class name and [str(e)]. *)
Record exn : Type := mk_exn { exn_class : string; exn_str : string }.

Definition ZeroDivisionError : exn :=
  mk_exn "ZeroDivisionError" "float division by zero".

(** [raise None]: what [raise last_exception] does when nothing was caught. *)
Definition TypeError_raise_None : exn :=
  mk_exn "TypeError" "exceptions must derive from BaseException".

(** The outcome of evaluating a Python expression or call. *)
Inductive result (A : Type) : Type :=
| Return (a : A)
| Raise (e : exn).
Arguments Return {A} a.
Arguments Raise {A} e.

Definition bind {A B : Type} (c : result A) (k : A -> result B) : result B :=
  match c with
  | Return a => k a
  | Raise e => Raise e
  end.

Declare Scope py_scope.
Delimit Scope py_scope with py.
Notation "x <- c ;; k" := (bind c (fun x => k))
  (at level 100, c at next level, right associativity) : py_scope.
Local Open Scope py_scope.

Definition returns {A : Type} (c : result A) : Prop := exists a, c = Return a.

(* ===================================================================== *)
(** ** Python arithmetic on the numbers of the model *)

(** [x < y] on numbers, as a test. *)
Definition Qlt_bool (x y : Q) : bool := negb (Qle_bool y x).

(** [x / y] *)
Definition py_truediv (x y : Q) : result Q :=
  if Qeq_bool y 0 then Raise ZeroDivisionError else Return (x / y).

(** [x ** n] for an int exponent *)
Definition py_pow (x : Q) (n : Z) : result Q :=
  if (n <? 0)%Z && Qeq_bool x 0 then Raise ZeroDivisionError
  else Return (x ^ n).

(** Nearest integer, ties to the even one. *)
Definition round_half_even (x : Q) : Z :=
  let f := Qfloor x in
  match Qcompare (x - inject_Z f) (1 # 2) with
  | Lt => f
  | Gt => (f + 1)%Z
  | Eq => if Z.even f then f else (f + 1)%Z
  end.

(** [round(x, ndigits)]: the multiple of [10 ** -ndigits] nearest to [x],
    ties to even, as a reduced fraction. *)
Definition py_round (x : Q) (ndigits : Z) : Q :=
  Qred (inject_Z (round_half_even (x * 10 ^ ndigits)) / 10 ^ ndigits).

(* ===================================================================== *)
(** ** Python values and dict literals *)

#[warnings="-register-all"]
Inductive value : Type :=
| VFloat (q : Q)
| VInt (z : Z)
| VStr (s : string)
| VDict (d : list (string * value)).

Definition dict : Type := list (string * value).

Fixpoint dict_get (key : string) (d : dict) : option value :=
  match d with
  | [] => None
  | (k, v) :: d' => if String.eqb key k then Some v else dict_get key d'
  end.

Definition dict_keys (d : dict) : list string := map fst d.

Definition has_key (key : string) (d : dict) : bool :=
  match dict_get key d with Some _ => true | None => false end.

(** [d[k1][k2]] *)
Definition dict_get2 (k1 k2 : string) (d : dict) : option value :=
  match dict_get k1 d with
  | Some (VDict d') => dict_get k2 d'
  | _ => None
  end.

Definition error_record (msg : string) : dict := [("error"%string, VStr msg)].

(* ===================================================================== *)
(** ** calculate_mortgage (tools.py 75-136), the function under the decorator *)

(** The body of [calculate_mortgage]: what [calculate_mortgage.__wrapped__]
    names after [functools.wraps]. *)
Definition calculate_mortgage_wrapped
    (price down_payment_pct interest_rate : Q) (term_years : Z) : result dict :=
  if Qle_bool price 0 then
    Return (error_record "Price must be positive.")
  else if negb (Qle_bool 0 down_payment_pct && Qle_bool down_payment_pct 100) then
    Return (error_record "Down payment percentage must be between 0 and 100.")
  else if Qle_bool interest_rate 0 then
    Return (error_record "Interest rate must be positive.")
  else if (term_years <=? 0)%Z then
    Return (error_record "Loan term must be positive.")
  else
    pct <- py_truediv down_payment_pct 100 ;;
    let down_payment := price * pct in
    let loan_amount := price - down_payment in
    rate <- py_truediv interest_rate 100 ;;
    monthly_rate <- py_truediv rate 12 ;;
    let num_payments := (term_years * 12)%Z in
    if Qeq_bool loan_amount 0 then
      Return
        [ ("price"%string, VFloat (py_round price 2));
          ("down_payment_pct"%string, VFloat down_payment_pct);
          ("down_payment_amount"%string, VFloat (py_round down_payment 2));
          ("loan_amount"%string, VFloat 0);
          ("monthly_payment"%string, VFloat 0);
          ("total_interest"%string, VFloat 0);
          ("total_cost"%string, VFloat (py_round price 2)) ]
    else
      growth <- py_pow (1 + monthly_rate) num_payments ;;
      growth' <- py_pow (1 + monthly_rate) num_payments ;;
      factor <- py_truediv (monthly_rate * growth) (growth' - 1) ;;
      let monthly_payment := loan_amount * factor in
      let total_paid := monthly_payment * inject_Z num_payments in
      let total_interest := total_paid - loan_amount in
      Return
        [ ("price"%string, VFloat (py_round price 2));
          ("down_payment_pct"%string, VFloat down_payment_pct);
          ("down_payment_amount"%string, VFloat (py_round down_payment 2));
          ("loan_amount"%string, VFloat (py_round loan_amount 2));
          ("interest_rate"%string, VFloat interest_rate);
          ("term_years"%string, VInt term_years);
          ("monthly_payment"%string, VFloat (py_round monthly_payment 2));
          ("total_interest"%string, VFloat (py_round total_interest 2));
          ("total_cost"%string, VFloat (py_round (down_payment + total_paid) 2)) ].

(* ===================================================================== *)
(** ** calculate_cashflow (tools.py 140-216), the function under the decorator *)

Definition calculate_cashflow_wrapped
    (monthly_rent mortgage_payment monthly_taxes monthly_insurance
     vacancy_rate_pct maintenance_pct property_price total_cash_invested : Q)
    : result dict :=
  if Qlt_bool monthly_rent 0 || Qlt_bool mortgage_payment 0 then
    Return (error_record "Rent and mortgage must be non-negative.")
  else
    vacancy_frac <- py_truediv vacancy_rate_pct 100 ;;
    let vacancy_reserve := monthly_rent * vacancy_frac in
    maintenance_frac <- py_truediv maintenance_pct 100 ;;
    let maintenance_reserve := monthly_rent * maintenance_frac in
    let total_monthly_expenses :=
      mortgage_payment + monthly_taxes + monthly_insurance
      + vacancy_reserve + maintenance_reserve in
    let monthly_cash_flow := monthly_rent - total_monthly_expenses in
    let annual_cash_flow := monthly_cash_flow * 12 in
    let annual_noi :=
      (monthly_rent - vacancy_reserve - maintenance_reserve
       - monthly_taxes - monthly_insurance) * 12 in
    cap_rate <-
      (if Qlt_bool 0 property_price then
         q <- py_truediv annual_noi property_price ;; Return (q * 100)
       else Return 0) ;;
    cash_on_cash <-
      (if Qlt_bool 0 total_cash_invested then
         q <- py_truediv annual_cash_flow total_cash_invested ;; Return (q * 100)
       else Return 0) ;;
    rent_to_price <-
      (if Qlt_bool 0 property_price then py_truediv monthly_rent property_price
       else Return 0) ;;
    Return
      [ ("monthly_rent"%string, VFloat (py_round monthly_rent 2));
        ("expenses"%string,
         VDict
           [ ("mortgage"%string, VFloat (py_round mortgage_payment 2));
             ("taxes"%string, VFloat (py_round monthly_taxes 2));
             ("insurance"%string, VFloat (py_round monthly_insurance 2));
             ("vacancy_reserve"%string, VFloat (py_round vacancy_reserve 2));
             ("maintenance_reserve"%string, VFloat (py_round maintenance_reserve 2));
             ("total_monthly"%string, VFloat (py_round total_monthly_expenses 2)) ]);
        ("monthly_cash_flow"%string, VFloat (py_round monthly_cash_flow 2));
        ("annual_cash_flow"%string, VFloat (py_round annual_cash_flow 2));
        ("annual_noi"%string, VFloat (py_round annual_noi 2));
        ("cap_rate_pct"%string, VFloat (py_round cap_rate 2));
        ("cash_on_cash_return_pct"%string, VFloat (py_round cash_on_cash 2));
        ("rent_to_price_ratio"%string, VFloat (py_round rent_to_price 4)) ].

(* ===================================================================== *)
(** ** Strings: [str.lower()] and the [in] test *)

(** [c.lower()] on an ASCII letter; other characters are left alone. *)
Definition lower_ascii (c : ascii) : ascii :=
  let n := nat_of_ascii c in
  if (65 <=? n)%nat && (n <=? 90)%nat then ascii_of_nat (n + 32) else c.

(** [s.lower()] *)
Fixpoint lower (s : string) : string :=
  match s with
  | EmptyString => EmptyString
  | String c s' => String (lower_ascii c) (lower s')
  end.

(** [pat in s] *)
Fixpoint str_in (pat s : string) : bool :=
  prefix pat s
  || match s with
     | EmptyString => false
     | String _ s' => str_in pat s'
     end.

(* ===================================================================== *)
(** ** retry_on_rate_limit (tools.py 30-71) *)

(** What a run of the wrapper does besides computing: it calls the decorated
    function ([Call] records what the call raised, if anything), logs and
    sleeps.  [time.sleep] and the logger are recorded, not interpreted. *)
Inductive event : Type :=
| Call (raised : option exn)
| LogWarning (func_name : string) (retry max_retries : Z) (delay : Q)
| LogError (func_name : string) (max_retries : Z)
| Sleep (delay : Q).

(** [range(n)] *)
Definition py_range (n : Z) : list Z := map Z.of_nat (seq 0 (Z.to_nat n)).

(** The test of line 53 on [error_str = str(e).lower()]. *)
Definition is_rate_limit (e : exn) : bool :=
  let error_str := lower (exn_str e) in
  str_in "resource_exhausted" error_str || str_in "rate limit" error_str.

Section Decorator.

(** [St] is the state the decorated function reads and changes (the
    upstream service, for instance); [A] is what it returns.  [func] is the
    call of the decorated function on the wrapper's own arguments. *)
Context {St A : Type}.
Variable max_retries : Z.
Variable base_delay : Q.
Variable func_name : string.
Variable func : St -> result A * St.

(** The [for attempt in ...] loop of [wrapper], on the attempts still to
    make, and the [raise last_exception] after it. *)
Fixpoint retry_loop (attempts : list Z) (last_exception : option exn) (s : St)
    : result A * St * list event :=
  match attempts with
  | [] =>
      match last_exception with
      | Some e => (Raise e, s, [])
      | None => (Raise TypeError_raise_None, s, [])
      end
  | attempt :: rest =>
      match func s with
      | (Return v, s') => (Return v, s', [Call None])
      | (Raise e, s') =>
          if is_rate_limit e then
            if (attempt <? max_retries)%Z then
              let delay := base_delay * inject_Z (2 ^ attempt) in
              let '(r, s'', evs) := retry_loop rest (Some e) s' in
              (r, s'',
               Call (Some e)
                 :: LogWarning func_name (attempt + 1) max_retries delay
                 :: Sleep delay :: evs)
            else
              let '(r, s'', evs) := retry_loop rest (Some e) s' in
              (r, s'', Call (Some e) :: LogError func_name max_retries :: evs)
          else (Raise e, s', [Call (Some e)])
      end
  end.

Definition wrapper (s : St) : result A * St * list event :=
  retry_loop (py_range (max_retries + 1)) None s.

End Decorator.

(** [@retry_on_rate_limit(max_retries, base_delay)] applied to a function
    named [func_name]. *)
Definition retry_on_rate_limit {St A : Type} (max_retries : Z) (base_delay : Q)
    (func_name : string) (func : St -> result A * St)
    : St -> result A * St * list event :=
  wrapper max_retries base_delay func_name func.

(** A function that touches no state, as a callable. *)
Definition pure_call {St A : Type} (c : result A) : St -> result A * St :=
  fun s => (c, s).

(** The exported [calculate_mortgage]: line 74 over lines 75-136. *)
Definition calculate_mortgage {St : Type}
    (price down_payment_pct interest_rate : Q) (term_years : Z)
    : St -> result dict * St * list event :=
  retry_on_rate_limit 5 2 "calculate_mortgage"
    (pure_call
       (calculate_mortgage_wrapped price down_payment_pct interest_rate term_years)).

(** The exported [calculate_cashflow]: line 139 over lines 140-216. *)
Definition calculate_cashflow {St : Type}
    (monthly_rent mortgage_payment monthly_taxes monthly_insurance
     vacancy_rate_pct maintenance_pct property_price total_cash_invested : Q)
    : St -> result dict * St * list event :=
  retry_on_rate_limit 5 2 "calculate_cashflow"
    (pure_call
       (calculate_cashflow_wrapped monthly_rent mortgage_payment monthly_taxes
          monthly_insurance vacancy_rate_pct maintenance_pct property_price
          total_cash_invested)).

(** What a run returned, and the observations on its events. *)
Definition outcome {St A : Type} (run : result A * St * list event) : result A :=
  fst (fst run).
Definition final_state {St A : Type} (run : result A * St * list event) : St :=
  snd (fst run).
Definition events {St A : Type} (run : result A * St * list event) : list event :=
  snd run.

Fixpoint calls (evs : list event) : list (option exn) :=
  match evs with
  | [] => []
  | Call r :: evs' => r :: calls evs'
  | _ :: evs' => calls evs'
  end.

Fixpoint sleeps (evs : list event) : list Q :=
  match evs with
  | [] => []
  | Sleep d :: evs' => d :: sleeps evs'
  | _ :: evs' => sleeps evs'
  end.

(** A service that is out of quota for good: each call raises, and the
    state counts the calls. *)
Definition exhausted_service (n : nat) : result Z * nat :=
  (Raise (mk_exn "ClientError" "429 RESOURCE_EXHAUSTED"), S n).

(** A service that fails with RESOURCE_EXHAUSTED while its budget lasts. *)
Definition flaky (budget : nat) : result Z * nat :=
  match budget with
  | O => (Return 42%Z, O)
  | S n => (Raise (mk_exn "ClientError" "429 RESOURCE_EXHAUSTED"), n)
  end.


(* ===================================================================== *)
(** ** The specification's side *)

(** The four validations of the mortgage calculator, as the contract states
    them. *)
Definition valid_mortgage_input
    (price down_payment_pct interest_rate : Q) (term_years : Z) : Prop :=
  0 < price /\ (0 <= down_payment_pct /\ down_payment_pct <= 100)
  /\ 0 < interest_rate /\ (0 < term_years)%Z.

(** The validation of the cash-flow analyzer. *)
Definition valid_cashflow_input (monthly_rent mortgage_payment : Q) : Prop :=
  0 <= monthly_rent /\ 0 <= mortgage_payment.

(** The amortization formulas, written as the specification writes them. *)
Module MortgageSpec.

Definition down_payment (price pct : Q) : Q := price * pct / 100.

Definition loan_amount (price pct : Q) : Q := price - price * pct / 100.

Definition r (interest_rate : Q) : Q := (interest_rate / 100) / 12.

Definition n (term_years : Z) : Z := (term_years * 12)%Z.

Definition monthly_payment (price pct interest_rate : Q) (term_years : Z) : Q :=
  loan_amount price pct
  * (r interest_rate * (1 + r interest_rate) ^ n term_years)
  / ((1 + r interest_rate) ^ n term_years - 1).

Definition total_interest (price pct interest_rate : Q) (term_years : Z) : Q :=
  monthly_payment price pct interest_rate term_years * inject_Z (n term_years)
  - loan_amount price pct.

Definition total_cost (price pct interest_rate : Q) (term_years : Z) : Q :=
  down_payment price pct
  + monthly_payment price pct interest_rate term_years * inject_Z (n term_years).

End MortgageSpec.

(** The cash-flow formulas, written as the specification writes them. *)
Module CashflowSpec.

Definition vacancy_reserve (rent vacancy_rate_pct : Q) : Q :=
  rent * vacancy_rate_pct / 100.

Definition maintenance_reserve (rent maintenance_pct : Q) : Q :=
  rent * maintenance_pct / 100.

Definition total_monthly (rent mortgage taxes insurance vac mnt : Q) : Q :=
  mortgage + taxes + insurance
  + vacancy_reserve rent vac + maintenance_reserve rent mnt.

Definition monthly_cash_flow (rent mortgage taxes insurance vac mnt : Q) : Q :=
  rent - total_monthly rent mortgage taxes insurance vac mnt.

Definition annual_cash_flow (rent mortgage taxes insurance vac mnt : Q) : Q :=
  12 * monthly_cash_flow rent mortgage taxes insurance vac mnt.

Definition annual_noi (rent taxes insurance vac mnt : Q) : Q :=
  (rent - vacancy_reserve rent vac - maintenance_reserve rent mnt
   - taxes - insurance) * 12.

End CashflowSpec.

(** [pat] occurs in [s] up to the case of ASCII letters. *)
Definition occurs_ignoring_case (pat s : string) : Prop :=
  exists a m b, s = (a ++ m ++ b)%string /\ lower m = lower pat.

(** The delay the backoff policy prescribes after a failure of attempt [i]. *)
Definition backoff_delay (base_delay : Q) (i : Z) : Q :=
  base_delay * inject_Z (2 ^ i).

(** The record of the full-down-payment branch (lines 107-115). *)
Definition full_down_record (price down_payment_pct : Q) : dict :=
  [ ("price"%string, VFloat (py_round price 2));
    ("down_payment_pct"%string, VFloat down_payment_pct);
    ("down_payment_amount"%string,
     VFloat (py_round (MortgageSpec.down_payment price down_payment_pct) 2));
    ("loan_amount"%string, VFloat 0);
    ("monthly_payment"%string, VFloat 0);
    ("total_interest"%string, VFloat 0);
    ("total_cost"%string, VFloat (py_round price 2)) ].

(** The nine fields of MortgageResult. *)
Definition mortgage_result_fields : list string :=
  [ "price"; "down_payment_pct"; "down_payment_amount"; "loan_amount";
    "interest_rate"; "term_years"; "monthly_payment"; "total_interest";
    "total_cost" ]%string.

(** The success record of lines 126-136 on the values the body computes. *)
Definition amortized_record
    (price down_payment_pct interest_rate : Q) (term_years : Z) : dict :=
  let down_payment := price * (down_payment_pct / 100) in
  let loan_amount := price - down_payment in
  let monthly_rate := interest_rate / 100 / 12 in
  let num_payments := (term_years * 12)%Z in
  let factor :=
    (monthly_rate * (1 + monthly_rate) ^ num_payments)
    / ((1 + monthly_rate) ^ num_payments - 1) in
  let monthly_payment := loan_amount * factor in
  let total_paid := monthly_payment * inject_Z num_payments in
  [ ("price"%string, VFloat (py_round price 2));
    ("down_payment_pct"%string, VFloat down_payment_pct);
    ("down_payment_amount"%string, VFloat (py_round down_payment 2));
    ("loan_amount"%string, VFloat (py_round loan_amount 2));
    ("interest_rate"%string, VFloat interest_rate);
    ("term_years"%string, VInt term_years);
    ("monthly_payment"%string, VFloat (py_round monthly_payment 2));
    ("total_interest"%string, VFloat (py_round (total_paid - loan_amount) 2));
    ("total_cost"%string, VFloat (py_round (down_payment + total_paid) 2)) ].

(** The success record of lines 200-216 on the values the body computes. *)
Definition cashflow_record
    (monthly_rent mortgage_payment monthly_taxes monthly_insurance
     vacancy_rate_pct maintenance_pct property_price total_cash_invested : Q)
    : dict :=
  let vacancy_reserve := monthly_rent * (vacancy_rate_pct / 100) in
  let maintenance_reserve := monthly_rent * (maintenance_pct / 100) in
  let total_monthly_expenses :=
    mortgage_payment + monthly_taxes + monthly_insurance
    + vacancy_reserve + maintenance_reserve in
  let monthly_cash_flow := monthly_rent - total_monthly_expenses in
  let annual_cash_flow := monthly_cash_flow * 12 in
  let annual_noi :=
    (monthly_rent - vacancy_reserve - maintenance_reserve
     - monthly_taxes - monthly_insurance) * 12 in
  let cap_rate :=
    if Qlt_bool 0 property_price then annual_noi / property_price * 100 else 0 in
  let cash_on_cash :=
    if Qlt_bool 0 total_cash_invested
    then annual_cash_flow / total_cash_invested * 100 else 0 in
  let rent_to_price :=
    if Qlt_bool 0 property_price then monthly_rent / property_price else 0 in
  [ ("monthly_rent"%string, VFloat (py_round monthly_rent 2));
    ("expenses"%string,
     VDict
       [ ("mortgage"%string, VFloat (py_round mortgage_payment 2));
         ("taxes"%string, VFloat (py_round monthly_taxes 2));
         ("insurance"%string, VFloat (py_round monthly_insurance 2));
         ("vacancy_reserve"%string, VFloat (py_round vacancy_reserve 2));
         ("maintenance_reserve"%string, VFloat (py_round maintenance_reserve 2));
         ("total_monthly"%string, VFloat (py_round total_monthly_expenses 2)) ]);
    ("monthly_cash_flow"%string, VFloat (py_round monthly_cash_flow 2));
    ("annual_cash_flow"%string, VFloat (py_round annual_cash_flow 2));
    ("annual_noi"%string, VFloat (py_round annual_noi 2));
    ("cap_rate_pct"%string, VFloat (py_round cap_rate 2));
    ("cash_on_cash_return_pct"%string, VFloat (py_round cash_on_cash 2));
    ("rent_to_price_ratio"%string, VFloat (py_round rent_to_price 4)) ].

(** The attempts [k, k+1, ..., k+n-1] of the loop. *)
Definition attempts_from (k n : nat) : list Z := map Z.of_nat (seq k n).

(** A call that failed with an error the wrapper retries on. *)
Definition retryable_failure (c : option exn) : Prop :=
  exists e, c = Some e /\ is_rate_limit e = true.

(** [raise last_exception] *)
Definition raise_last {A : Type} (last_exception : option exn) : result A :=
  match last_exception with
  | Some e => Raise e
  | None => Raise TypeError_raise_None
  end.

(** The warnings and the error logs of a run, with what they report. *)
Fixpoint warnings (evs : list event) : list (string * Z * Z * Q) :=
  match evs with
  | [] => []
  | LogWarning name retry max_retries delay :: evs' =>
      (name, retry, max_retries, delay) :: warnings evs'
  | _ :: evs' => warnings evs'
  end.

Fixpoint error_logs (evs : list event) : list (string * Z) :=
  match evs with
  | [] => []
  | LogError name max_retries :: evs' => (name, max_retries) :: error_logs evs'
  | _ :: evs' => error_logs evs'
  end.

(** Every call of the list failed with an error the wrapper retries on. *)
Definition all_retryable (cs : list (option exn)) : bool :=
  forallb (fun c => match c with Some e => is_rate_limit e | None => false end) cs.

(** The state the decorated function leaves after [n] calls in a row. *)
Fixpoint state_after {St A : Type} (func : St -> result A * St) (n : nat) (s : St)
    : St :=
  match n with
  | O => s
  | S n' => state_after func n' (snd (func s))
  end.

(** From [s], the function fails [k] times with a retryable error, then
    returns [v] and leaves the state [s_end]. *)
Fixpoint transient_then_return {St A : Type} (func : St -> result A * St)
    (k : nat) (s : St) (v : A) (s_end : St) : Prop :=
  match k with
  | O => func s = (Return v, s_end)
  | S k' =>
      exists e s', func s = (Raise e, s') /\ is_rate_limit e = true
                   /\ transient_then_return func k' s' v s_end
  end.

(** The time a run spends asleep. *)
Fixpoint Qsum (l : list Q) : Q :=
  match l with
  | [] => 0
  | x :: l' => x + Qsum l'
  end.

(* ===================================================================== *)
(** ** Arithmetic of the model *)

Lemma Qlt_bool_iff (x y : Q) : Qlt_bool x y = true <-> x < y.
Proof.
  unfold Qlt_bool. rewrite negb_true_iff. split; intro H.
  - apply Qnot_le_lt. intro Hle. apply Qle_bool_iff in Hle. congruence.
  - destruct (Qle_bool y x) eqn:E; [|reflexivity].
    apply Qle_bool_iff in E. exfalso. exact (Qlt_not_le _ _ H E).
Qed.

Lemma Qlt_bool_false_iff (x y : Q) : Qlt_bool x y = false <-> y <= x.
Proof.
  unfold Qlt_bool. rewrite negb_false_iff. apply Qle_bool_iff.
Qed.

Lemma Qle_bool_false_iff (x y : Q) : Qle_bool x y = false <-> y < x.
Proof.
  rewrite <- Qlt_bool_iff. unfold Qlt_bool.
  destruct (Qle_bool x y); simpl; intuition congruence.
Qed.

Lemma Qeq_bool_false_iff (x y : Q) : Qeq_bool x y = false <-> ~ x == y.
Proof.
  split.
  - apply Qeq_bool_neq.
  - intro H. destruct (Qeq_bool x y) eqn:E; [|reflexivity].
    apply Qeq_bool_iff in E. contradiction.
Qed.

Lemma py_truediv_nonzero (x y : Q) :
  ~ y == 0 -> py_truediv x y = Return (x / y).
Proof.
  intro H. unfold py_truediv. apply Qeq_bool_false_iff in H. now rewrite H.
Qed.

Lemma py_truediv_100 (x : Q) : py_truediv x 100 = Return (x / 100).
Proof. reflexivity. Qed.

Lemma py_truediv_12 (x : Q) : py_truediv x 12 = Return (x / 12).
Proof. reflexivity. Qed.

Lemma py_pow_nonneg (x : Q) (n : Z) : (0 <= n)%Z -> py_pow x n = Return (x ^ n).
Proof.
  intro H. unfold py_pow.
  replace (n <? 0)%Z with false; [reflexivity|].
  symmetry. apply Z.ltb_ge. exact H.
Qed.

Lemma round_half_even_comp (x y : Q) :
  x == y -> round_half_even x = round_half_even y.
Proof.
  intro H. unfold round_half_even.
  rewrite (Qfloor_comp x y H).
  assert (Hc : (x - inject_Z (Qfloor y) ?= 1 # 2) = (y - inject_Z (Qfloor y) ?= 1 # 2)).
  { apply Qcompare_comp; [now rewrite H | reflexivity]. }
  now rewrite Hc.
Qed.

(** [round] depends on the number only, not on the fraction that denotes it. *)
Lemma py_round_comp (x y : Q) (ndigits : Z) :
  x == y -> py_round x ndigits = py_round y ndigits.
Proof.
  intro H. unfold py_round. apply Qred_complete.
  rewrite (round_half_even_comp (x * 10 ^ ndigits) (y * 10 ^ ndigits)).
  - reflexivity.
  - now rewrite H.
Qed.

Lemma py_round_0 (ndigits : Z) : py_round 0 ndigits = 0.
Proof.
  unfold py_round. transitivity (Qred 0); [|reflexivity].
  apply Qred_complete.
  rewrite (round_half_even_comp (0 * 10 ^ ndigits) 0) by ring.
  change (round_half_even 0) with 0%Z.
  unfold Qdiv. change (inject_Z 0) with 0. ring.
Qed.

(** The compounding factor exceeds 1, so the amortization formula never
    divides by zero. *)
Lemma growth_gt_1 (monthly_rate : Q) (num_payments : Z) :
  0 < monthly_rate -> (0 < num_payments)%Z ->
  1 < (1 + monthly_rate) ^ num_payments.
Proof.
  intros Hr Hn. apply Qpower_1_lt; [lra | exact Hn].
Qed.

Lemma monthly_rate_pos (interest_rate : Q) :
  0 < interest_rate -> 0 < interest_rate / 100 / 12.
Proof.
  intro H. unfold Qdiv.
  setoid_replace (interest_rate * / 100 * / 12) with (interest_rate * (1 # 1200)).
  - lra.
  - field.
Qed.

(* ===================================================================== *)
(** ** The body of calculate_mortgage *)

Lemma mortgage_checks_pass (price pct rate : Q) (term : Z) :
  valid_mortgage_input price pct rate term ->
  Qle_bool price 0 = false
  /\ negb (Qle_bool 0 pct && Qle_bool pct 100) = false
  /\ Qle_bool rate 0 = false
  /\ (term <=? 0)%Z = false.
Proof.
  intros (Hp & (Hd0 & Hd100) & Hr & Ht). repeat split.
  - now apply Qle_bool_false_iff.
  - apply negb_false_iff, andb_true_iff. split; now apply Qle_bool_iff.
  - now apply Qle_bool_false_iff.
  - apply Z.leb_gt. exact Ht.
Qed.

Lemma amortization_denominator (rate : Q) (term : Z) :
  0 < rate -> (0 < term)%Z ->
  ~ (1 + rate / 100 / 12) ^ (term * 12) - 1 == 0.
Proof.
  intros Hr Ht.
  assert (H : 1 < (1 + rate / 100 / 12) ^ (term * 12)).
  { apply growth_gt_1; [now apply monthly_rate_pos | lia]. }
  intro E. lra.
Qed.

(** Past the validations the body is one of its two returns: no operation
    of it raises. *)
Lemma calculate_mortgage_wrapped_valid (price pct rate : Q) (term : Z) :
  valid_mortgage_input price pct rate term ->
  calculate_mortgage_wrapped price pct rate term =
  if Qeq_bool (price - price * (pct / 100)) 0 then
    Return
      [ ("price"%string, VFloat (py_round price 2));
        ("down_payment_pct"%string, VFloat pct);
        ("down_payment_amount"%string, VFloat (py_round (price * (pct / 100)) 2));
        ("loan_amount"%string, VFloat 0);
        ("monthly_payment"%string, VFloat 0);
        ("total_interest"%string, VFloat 0);
        ("total_cost"%string, VFloat (py_round price 2)) ]
  else Return (amortized_record price pct rate term).
Proof.
  intro Hv. destruct (mortgage_checks_pass _ _ _ _ Hv) as (H1 & H2 & H3 & H4).
  destruct Hv as (Hp & Hd & Hr & Ht).
  unfold calculate_mortgage_wrapped. rewrite H1, H2, H3, H4.
  rewrite py_truediv_100. cbn [bind].
  rewrite py_truediv_100. cbn [bind].
  rewrite py_truediv_12. cbn [bind].
  destruct (Qeq_bool (price - price * (pct / 100)) 0); [reflexivity|].
  rewrite py_pow_nonneg by lia. cbn [bind].
  rewrite py_truediv_nonzero by (now apply amortization_denominator).
  cbn [bind]. reflexivity.
Qed.

(** The validations, in the order of lines 92-99. *)
Lemma calculate_mortgage_wrapped_checks (price pct rate : Q) (term : Z) :
  (~ 0 < price
   /\ calculate_mortgage_wrapped price pct rate term
      = Return (error_record "Price must be positive."))
  \/ (0 < price /\ ~ (0 <= pct /\ pct <= 100)
      /\ calculate_mortgage_wrapped price pct rate term
         = Return (error_record "Down payment percentage must be between 0 and 100."))
  \/ (0 < price /\ (0 <= pct /\ pct <= 100) /\ ~ 0 < rate
      /\ calculate_mortgage_wrapped price pct rate term
         = Return (error_record "Interest rate must be positive."))
  \/ (0 < price /\ (0 <= pct /\ pct <= 100) /\ 0 < rate /\ ~ (0 < term)%Z
      /\ calculate_mortgage_wrapped price pct rate term
         = Return (error_record "Loan term must be positive."))
  \/ valid_mortgage_input price pct rate term.
Proof.
  unfold calculate_mortgage_wrapped, valid_mortgage_input.
  destruct (Qle_bool price 0) eqn:E1.
  { left. split; [|reflexivity]. apply Qle_bool_iff in E1. lra. }
  apply Qle_bool_false_iff in E1. right.
  destruct (Qle_bool 0 pct) eqn:E2a; cbn [andb negb].
  2:{ left. repeat split; trivial. apply Qle_bool_false_iff in E2a. lra. }
  apply Qle_bool_iff in E2a.
  destruct (Qle_bool pct 100) eqn:E2b; cbn [negb].
  2:{ left. repeat split; trivial. apply Qle_bool_false_iff in E2b. lra. }
  apply Qle_bool_iff in E2b. right.
  destruct (Qle_bool rate 0) eqn:E3.
  { left. repeat split; trivial. apply Qle_bool_iff in E3. lra. }
  apply Qle_bool_false_iff in E3. right.
  destruct (term <=? 0)%Z eqn:E4.
  { left. repeat split; trivial. apply Z.leb_le in E4. lia. }
  apply Z.leb_gt in E4. right. repeat split; trivial.
Qed.

Lemma calculate_mortgage_wrapped_returns (price pct rate : Q) (term : Z) :
  returns (calculate_mortgage_wrapped price pct rate term).
Proof.
  destruct (calculate_mortgage_wrapped_checks price pct rate term)
    as [(_ & E) | [(_ & _ & E) | [(_ & _ & _ & E) | [(_ & _ & _ & _ & E) | Hv]]]];
    try (rewrite E; eexists; reflexivity).
  rewrite (calculate_mortgage_wrapped_valid _ _ _ _ Hv).
  destruct (Qeq_bool _ 0); eexists; reflexivity.
Qed.

(* ===================================================================== *)
(** ** The decorator on a function that touches no state *)

Lemma py_range_6 : py_range (5 + 1) = [0; 1; 2; 3; 4; 5]%Z.
Proof. reflexivity. Qed.

(** On a call that returns, the calculators' decorator runs the call once
    and hands its value back. *)
Lemma decorated_pure_returns {St A : Type} (name : string) (c : result A) (s : St) :
  returns c ->
  retry_on_rate_limit 5 2 name (pure_call c) s = (c, s, [Call None]).
Proof.
  intros [v ->]. unfold retry_on_rate_limit, wrapper. rewrite py_range_6.
  reflexivity.
Qed.

Lemma calculate_mortgage_run {St : Type} (price pct rate : Q) (term : Z) (s : St) :
  calculate_mortgage price pct rate term s
  = (calculate_mortgage_wrapped price pct rate term, s, [Call None]).
Proof.
  unfold calculate_mortgage. apply decorated_pure_returns.
  apply calculate_mortgage_wrapped_returns.
Qed.

Lemma full_down_iff (price pct : Q) :
  0 < price -> (pct == 100 <-> MortgageSpec.loan_amount price pct == 0).
Proof.
  intro Hp. unfold MortgageSpec.loan_amount. split; intro H.
  - rewrite H. field.
  - assert (E : price * (100 - pct) == 0).
    { setoid_replace (price * (100 - pct))
        with (100 * (price - price * pct / 100)) by field.
      rewrite H. ring. }
    apply Qmult_integral in E. destruct E as [E | E]; lra.
Qed.

Lemma loan_amount_code_spec (price pct : Q) :
  price - price * (pct / 100) == MortgageSpec.loan_amount price pct.
Proof. unfold MortgageSpec.loan_amount. field. Qed.

Lemma down_payment_code_spec (price pct : Q) :
  price * (pct / 100) == MortgageSpec.down_payment price pct.
Proof. unfold MortgageSpec.down_payment. field. Qed.

Lemma calculate_mortgage_wrapped_full_down (price pct rate : Q) (term : Z) :
  valid_mortgage_input price pct rate term ->
  MortgageSpec.loan_amount price pct == 0 ->
  calculate_mortgage_wrapped price pct rate term
  = Return (full_down_record price pct).
Proof.
  intros Hv H0. rewrite (calculate_mortgage_wrapped_valid _ _ _ _ Hv).
  rewrite <- loan_amount_code_spec in H0. apply Qeq_bool_iff in H0. rewrite H0.
  unfold full_down_record.
  now rewrite (py_round_comp _ _ 2 (down_payment_code_spec price pct)).
Qed.

Lemma calculate_mortgage_wrapped_amortized (price pct rate : Q) (term : Z) :
  valid_mortgage_input price pct rate term ->
  ~ MortgageSpec.loan_amount price pct == 0 ->
  calculate_mortgage_wrapped price pct rate term
  = Return (amortized_record price pct rate term).
Proof.
  intros Hv H0. rewrite (calculate_mortgage_wrapped_valid _ _ _ _ Hv).
  rewrite <- loan_amount_code_spec in H0. apply Qeq_bool_false_iff in H0.
  now rewrite H0.
Qed.

(** The record of the amortization branch carries the specification's
    formulas. *)
Lemma amortized_record_spec (price pct rate : Q) (term : Z) :
  0 < rate -> (0 < term)%Z ->
  amortized_record price pct rate term =
  [ ("price"%string, VFloat (py_round price 2));
    ("down_payment_pct"%string, VFloat pct);
    ("down_payment_amount"%string,
     VFloat (py_round (MortgageSpec.down_payment price pct) 2));
    ("loan_amount"%string,
     VFloat (py_round (MortgageSpec.loan_amount price pct) 2));
    ("interest_rate"%string, VFloat rate);
    ("term_years"%string, VInt term);
    ("monthly_payment"%string,
     VFloat (py_round (MortgageSpec.monthly_payment price pct rate term) 2));
    ("total_interest"%string,
     VFloat (py_round (MortgageSpec.total_interest price pct rate term) 2));
    ("total_cost"%string,
     VFloat (py_round (MortgageSpec.total_cost price pct rate term) 2)) ].
Proof.
  intros Hr Ht. pose proof (amortization_denominator rate term Hr Ht) as Hden.
  unfold amortized_record.
  unfold MortgageSpec.total_cost, MortgageSpec.total_interest,
    MortgageSpec.monthly_payment, MortgageSpec.loan_amount,
    MortgageSpec.down_payment, MortgageSpec.r, MortgageSpec.n.
  set (g := (1 + rate / 100 / 12) ^ (term * 12)) in *.
  set (k := inject_Z (term * 12)).
  repeat (f_equal; try (apply py_round_comp; field; exact Hden)).
Qed.

(* ===================================================================== *)
(** ** The body of calculate_cashflow *)

Lemma cashflow_check_pass (rent mortgage : Q) :
  valid_cashflow_input rent mortgage ->
  Qlt_bool rent 0 || Qlt_bool mortgage 0 = false.
Proof.
  intros [Hr Hm]. apply orb_false_iff. split; now apply Qlt_bool_false_iff.
Qed.

Lemma cashflow_check_fail (rent mortgage : Q) :
  Qlt_bool rent 0 || Qlt_bool mortgage 0 = true <-> rent < 0 \/ mortgage < 0.
Proof.
  rewrite orb_true_iff, !Qlt_bool_iff. reflexivity.
Qed.

Lemma pos_nonzero (x : Q) : Qlt_bool 0 x = true -> ~ x == 0.
Proof. intros H E. apply Qlt_bool_iff in H. lra. Qed.

(** Past the validation every division of the body is guarded: the body
    returns the success record. *)
Lemma calculate_cashflow_wrapped_valid
    (rent mortgage taxes insurance vac mnt price invested : Q) :
  valid_cashflow_input rent mortgage ->
  calculate_cashflow_wrapped rent mortgage taxes insurance vac mnt price invested
  = Return (cashflow_record rent mortgage taxes insurance vac mnt price invested).
Proof.
  intro Hv. unfold calculate_cashflow_wrapped, cashflow_record.
  rewrite (cashflow_check_pass _ _ Hv).
  repeat (rewrite py_truediv_100; cbn [bind]).
  destruct (Qlt_bool 0 price) eqn:Ep; destruct (Qlt_bool 0 invested) eqn:Ei;
    repeat (rewrite py_truediv_nonzero by (now apply pos_nonzero); cbn [bind]);
    reflexivity.
Qed.

Lemma calculate_cashflow_wrapped_invalid
    (rent mortgage taxes insurance vac mnt price invested : Q) :
  rent < 0 \/ mortgage < 0 ->
  calculate_cashflow_wrapped rent mortgage taxes insurance vac mnt price invested
  = Return (error_record "Rent and mortgage must be non-negative.").
Proof.
  intro H. apply cashflow_check_fail in H.
  unfold calculate_cashflow_wrapped. now rewrite H.
Qed.

Lemma cashflow_input_cases (rent mortgage : Q) :
  valid_cashflow_input rent mortgage \/ (rent < 0 \/ mortgage < 0).
Proof.
  unfold valid_cashflow_input.
  destruct (Qlt_le_dec rent 0); [right; now left|].
  destruct (Qlt_le_dec mortgage 0); [right; now right|].
  left. now split.
Qed.

Lemma calculate_cashflow_wrapped_returns
    (rent mortgage taxes insurance vac mnt price invested : Q) :
  returns
    (calculate_cashflow_wrapped rent mortgage taxes insurance vac mnt price invested).
Proof.
  destruct (cashflow_input_cases rent mortgage) as [Hv | Hi].
  - rewrite calculate_cashflow_wrapped_valid by exact Hv. eexists; reflexivity.
  - rewrite calculate_cashflow_wrapped_invalid by exact Hi. eexists; reflexivity.
Qed.

Lemma calculate_cashflow_run {St : Type}
    (rent mortgage taxes insurance vac mnt price invested : Q) (s : St) :
  calculate_cashflow rent mortgage taxes insurance vac mnt price invested s
  = (calculate_cashflow_wrapped rent mortgage taxes insurance vac mnt price invested,
     s, [Call None]).
Proof.
  unfold calculate_cashflow. apply decorated_pure_returns.
  apply calculate_cashflow_wrapped_returns.
Qed.

(** The record of the success branch carries the specification's formulas. *)
Lemma cashflow_record_spec
    (rent mortgage taxes insurance vac mnt price invested : Q) :
  exists cap_rate cash_on_cash rent_to_price : Q,
    cashflow_record rent mortgage taxes insurance vac mnt price invested =
    [ ("monthly_rent"%string, VFloat (py_round rent 2));
      ("expenses"%string,
       VDict
         [ ("mortgage"%string, VFloat (py_round mortgage 2));
           ("taxes"%string, VFloat (py_round taxes 2));
           ("insurance"%string, VFloat (py_round insurance 2));
           ("vacancy_reserve"%string,
            VFloat (py_round (CashflowSpec.vacancy_reserve rent vac) 2));
           ("maintenance_reserve"%string,
            VFloat (py_round (CashflowSpec.maintenance_reserve rent mnt) 2));
           ("total_monthly"%string,
            VFloat
              (py_round
                 (CashflowSpec.total_monthly rent mortgage taxes insurance vac mnt)
                 2)) ]);
      ("monthly_cash_flow"%string,
       VFloat
         (py_round
            (CashflowSpec.monthly_cash_flow rent mortgage taxes insurance vac mnt) 2));
      ("annual_cash_flow"%string,
       VFloat
         (py_round
            (CashflowSpec.annual_cash_flow rent mortgage taxes insurance vac mnt) 2));
      ("annual_noi"%string,
       VFloat (py_round (CashflowSpec.annual_noi rent taxes insurance vac mnt) 2));
      ("cap_rate_pct"%string, VFloat (py_round cap_rate 2));
      ("cash_on_cash_return_pct"%string, VFloat (py_round cash_on_cash 2));
      ("rent_to_price_ratio"%string, VFloat (py_round rent_to_price 4)) ].
Proof.
  unfold cashflow_record. do 3 eexists.
  unfold CashflowSpec.annual_noi, CashflowSpec.annual_cash_flow,
    CashflowSpec.monthly_cash_flow, CashflowSpec.total_monthly,
    CashflowSpec.maintenance_reserve, CashflowSpec.vacancy_reserve.
  repeat (f_equal; try (apply py_round_comp; field)).
Qed.

(* ===================================================================== *)
(** ** The calculators as exported *)

(** C1, at the input price = 365000, down_payment_pct = 100, interest_rate =
    6.8, term_years = 30, which passes the four validations: the exported
    calculate_mortgage returns a record of seven keys; interest_rate and
    term_years, which the amortization branch returns, are not in it. *)
Theorem calculate_mortgage_full_down_drops_fields :
  valid_mortgage_input 365000 100 (68 # 10) 30
  /\ exists d : dict,
       outcome (calculate_mortgage 365000 100 (68 # 10) 30 tt) = Return d
       /\ dict_keys d
          = [ "price"; "down_payment_pct"; "down_payment_amount"; "loan_amount";
              "monthly_payment"; "total_interest"; "total_cost" ]%string
       /\ has_key "interest_rate" d = false
       /\ has_key "term_years" d = false
       /\ forallb (fun k => has_key k d) mortgage_result_fields = false.
Proof.
  split.
  - unfold valid_mortgage_input. repeat split; try reflexivity; discriminate.
  - eexists. split; [vm_compute; reflexivity|]. repeat split.
Qed.



(** C7: on a valid input, down_payment_pct = 100 holds exactly when
    loan_amount = 0, and then calculate_mortgage returns the record of the
    full-down-payment branch, which is built without the amortization formula
    (it does not depend on interest_rate or term_years): monthly_payment = 0,
    total_interest = 0 and total_cost = price, both being the price rounded
    to 2 decimals. *)
Theorem calculate_mortgage_full_down {St : Type}
    (price down_payment_pct interest_rate : Q) (term_years : Z) (s : St) :
  valid_mortgage_input price down_payment_pct interest_rate term_years ->
  (down_payment_pct == 100 <-> MortgageSpec.loan_amount price down_payment_pct == 0)
  /\ (down_payment_pct == 100 ->
      exists d : dict,
        outcome (calculate_mortgage price down_payment_pct interest_rate term_years s)
        = Return d
        /\ d = full_down_record price down_payment_pct
        /\ dict_get "monthly_payment" d = Some (VFloat 0)
        /\ dict_get "total_interest" d = Some (VFloat 0)
        /\ dict_get "total_cost" d = Some (VFloat (py_round price 2))
        /\ dict_get "total_cost" d = dict_get "price" d).
Proof.
  intro Hv. pose proof Hv as (Hp & _). split.
  - now apply full_down_iff.
  - intro H100. apply (full_down_iff price down_payment_pct Hp) in H100.
    exists (full_down_record price down_payment_pct).
    rewrite calculate_mortgage_run. unfold outcome. cbn [fst].
    rewrite calculate_mortgage_wrapped_full_down by assumption.
    repeat split.
Qed.

Lemma calculate_mortgage_full_down_witness :
  (100 == 100 <-> MortgageSpec.loan_amount 250000 100 == 0)
  /\ (100 == 100 ->
      exists d : dict,
        outcome (calculate_mortgage 250000 100 (7 # 1) 15 tt) = Return d
        /\ d = full_down_record 250000 100
        /\ dict_get "monthly_payment" d = Some (VFloat 0)
        /\ dict_get "total_interest" d = Some (VFloat 0)
        /\ dict_get "total_cost" d = Some (VFloat (py_round 250000 2))
        /\ dict_get "total_cost" d = dict_get "price" d).
Proof.
  apply (calculate_mortgage_full_down 250000 100 (7 # 1) 15 tt).
  unfold valid_mortgage_input. repeat split; try reflexivity; discriminate.
Defined.



(** C8: on a valid cash-flow input, property_price = 0 makes cap_rate_pct and
    rent_to_price_ratio 0.0 and total_cash_invested = 0 makes
    cash_on_cash_return_pct 0.0, whatever the other inputs are. *)
Theorem calculate_cashflow_sentinels {St : Type}
    (monthly_rent mortgage_payment monthly_taxes monthly_insurance
     vacancy_rate_pct maintenance_pct property_price total_cash_invested : Q)
    (s : St) :
  0 <= monthly_rent -> 0 <= mortgage_payment ->
  exists d : dict,
    outcome
      (calculate_cashflow monthly_rent mortgage_payment monthly_taxes
         monthly_insurance vacancy_rate_pct maintenance_pct property_price
         total_cash_invested s) = Return d
    /\ (property_price == 0 ->
        dict_get "cap_rate_pct" d = Some (VFloat 0)
        /\ dict_get "rent_to_price_ratio" d = Some (VFloat 0))
    /\ (total_cash_invested == 0 ->
        dict_get "cash_on_cash_return_pct" d = Some (VFloat 0)).
Proof.
  intros Hr Hm. eexists.
  rewrite calculate_cashflow_run. unfold outcome. cbn [fst].
  rewrite calculate_cashflow_wrapped_valid by (split; assumption).
  split; [reflexivity|]. unfold cashflow_record. split.
  - intro E. assert (Hlt : Qlt_bool 0 property_price = false).
    { apply Qlt_bool_false_iff. lra. }
    rewrite Hlt. cbn [dict_get String.eqb Ascii.eqb Bool.eqb].
    now rewrite !py_round_0.
  - intro E. assert (Hlt : Qlt_bool 0 total_cash_invested = false).
    { apply Qlt_bool_false_iff. lra. }
    rewrite Hlt. cbn [dict_get String.eqb Ascii.eqb Bool.eqb].
    now rewrite !py_round_0.
Qed.

Lemma calculate_cashflow_sentinels_witness :
  exists d : dict,
    outcome (calculate_cashflow 2900 2312 280 145 5 5 0 0 tt) = Return d
    /\ (0 == 0 ->
        dict_get "cap_rate_pct" d = Some (VFloat 0)
        /\ dict_get "rent_to_price_ratio" d = Some (VFloat 0))
    /\ (0 == 0 -> dict_get "cash_on_cash_return_pct" d = Some (VFloat 0)).
Proof.
  apply (calculate_cashflow_sentinels 2900 2312 280 145 5 5 0 0 tt); discriminate.
Defined.

(** C10: for monthly_rent >= 0 and mortgage_payment >= 0 and any other
    inputs, negative ones too, calculate_cashflow returns a success record
    and raises nothing; with property_price <= 0 the record has cap_rate_pct
    = rent_to_price_ratio = 0.0, and with total_cash_invested <= 0 it has
    cash_on_cash_return_pct = 0.0. *)
Theorem calculate_cashflow_total {St : Type}
    (monthly_rent mortgage_payment monthly_taxes monthly_insurance
     vacancy_rate_pct maintenance_pct property_price total_cash_invested : Q)
    (s : St) :
  0 <= monthly_rent -> 0 <= mortgage_payment ->
  exists d : dict,
    outcome
      (calculate_cashflow monthly_rent mortgage_payment monthly_taxes
         monthly_insurance vacancy_rate_pct maintenance_pct property_price
         total_cash_invested s) = Return d
    /\ has_key "error" d = false
    /\ dict_keys d
       = [ "monthly_rent"; "expenses"; "monthly_cash_flow"; "annual_cash_flow";
           "annual_noi"; "cap_rate_pct"; "cash_on_cash_return_pct";
           "rent_to_price_ratio" ]%string
    /\ (property_price <= 0 ->
        dict_get "cap_rate_pct" d = Some (VFloat 0)
        /\ dict_get "rent_to_price_ratio" d = Some (VFloat 0))
    /\ (total_cash_invested <= 0 ->
        dict_get "cash_on_cash_return_pct" d = Some (VFloat 0)).
Proof.
  intros Hr Hm. eexists.
  rewrite calculate_cashflow_run. unfold outcome. cbn [fst].
  rewrite calculate_cashflow_wrapped_valid by (split; assumption).
  split; [reflexivity|]. unfold cashflow_record.
  split; [reflexivity|]. split; [reflexivity|]. split.
  - intro E. apply Qlt_bool_false_iff in E.
    rewrite E. cbn [dict_get String.eqb Ascii.eqb Bool.eqb].
    now rewrite !py_round_0.
  - intro E. apply Qlt_bool_false_iff in E.
    rewrite E. cbn [dict_get String.eqb Ascii.eqb Bool.eqb].
    now rewrite !py_round_0.
Qed.

Lemma calculate_cashflow_total_witness :
  exists d : dict,
    outcome
      (calculate_cashflow 1450 0 (-(280 # 1)) (-(145 # 1)) (-(5 # 1)) (-(5 # 1))
         (-(365000 # 1)) (-(17775 # 1)) tt) = Return d
    /\ has_key "error" d = false
    /\ dict_keys d
       = [ "monthly_rent"; "expenses"; "monthly_cash_flow"; "annual_cash_flow";
           "annual_noi"; "cap_rate_pct"; "cash_on_cash_return_pct";
           "rent_to_price_ratio" ]%string
    /\ (-(365000 # 1) <= 0 ->
        dict_get "cap_rate_pct" d = Some (VFloat 0)
        /\ dict_get "rent_to_price_ratio" d = Some (VFloat 0))
    /\ (-(17775 # 1) <= 0 ->
        dict_get "cash_on_cash_return_pct" d = Some (VFloat 0)).
Proof.
  apply (calculate_cashflow_total 1450 0 (-(280 # 1)) (-(145 # 1)) (-(5 # 1))
           (-(5 # 1)) (-(365000 # 1)) (-(17775 # 1)) tt); discriminate.
Defined.



(* ===================================================================== *)
(** ** Lower-casing and the substring test *)

Lemma prefix_iff (p s : string) :
  prefix p s = true <-> exists b, s = (p ++ b)%string.
Proof.
  revert s. induction p as [|c p IH]; intro s.
  - destruct s; simpl; split; intros; eauto.
  - destruct s as [|c' s]; simpl.
    + split; [discriminate | intros [b Hb]; discriminate].
    + destruct (ascii_dec c c') as [->|Hne].
      * rewrite IH. split; intros [b Hb]; exists b; congruence.
      * split; [discriminate | intros [b Hb]; congruence].
Qed.

Lemma str_in_iff (p s : string) :
  str_in p s = true <-> exists a b, s = (a ++ p ++ b)%string.
Proof.
  induction s as [|c s IH].
  - cbn [str_in]. rewrite orb_false_r, prefix_iff. split.
    + intros [b Hb]. exists EmptyString, b. exact Hb.
    + intros (a & b & H). destruct a; simpl in H; [eauto | discriminate].
  - cbn [str_in]. rewrite orb_true_iff, IH, prefix_iff. split.
    + intros [[b Hb] | (a & b & H)].
      * exists EmptyString, b. exact Hb.
      * exists (String c a), b. simpl. now rewrite H.
    + intros (a & b & H). destruct a as [|c' a]; simpl in H.
      * left. eauto.
      * right. exists a, b. congruence.
Qed.

Lemma lower_app (a b : string) : lower (a ++ b) = (lower a ++ lower b)%string.
Proof. induction a as [|c a IH]; simpl; [reflexivity | now rewrite IH]. Qed.

Lemma lower_split (s x y : string) :
  lower s = (x ++ y)%string ->
  exists a b, s = (a ++ b)%string /\ lower a = x /\ lower b = y.
Proof.
  revert s. induction x as [|c x IH]; intros s H.
  - exists EmptyString, s. auto.
  - destruct s as [|c' s]; simpl in H; [discriminate|].
    injection H as Hc Hs. destruct (IH s Hs) as (a & b & -> & Ha & Hb).
    exists (String c' a), b. simpl. repeat split; congruence.
Qed.

(** Searching a lower-case pattern in the lower-cased text finds the
    occurrences of the pattern in any mix of cases. *)
Lemma str_in_lower_iff (pat s : string) :
  lower pat = pat ->
  (str_in pat (lower s) = true <-> occurs_ignoring_case pat s).
Proof.
  intro Hpat. rewrite str_in_iff. unfold occurs_ignoring_case. split.
  - intros (x & y & H).
    destruct (lower_split _ _ _ H) as (a & r & -> & Ha & Hr).
    destruct (lower_split _ _ _ Hr) as (m & b & -> & Hm & Hb).
    exists a, m, b. split; [reflexivity | congruence].
  - intros (a & m & b & -> & Hm).
    exists (lower a), (lower b). rewrite !lower_app. congruence.
Qed.

Lemma is_rate_limit_iff (e : exn) :
  is_rate_limit e = true
  <-> occurs_ignoring_case "resource_exhausted" (exn_str e)
      \/ occurs_ignoring_case "rate limit" (exn_str e).
Proof.
  unfold is_rate_limit. cbv zeta. rewrite orb_true_iff.
  rewrite !str_in_lower_iff by reflexivity. reflexivity.
Qed.

(* ===================================================================== *)
(** ** The retry loop *)

Lemma last_cons_default {T : Type} (x d : T) (l : list T) :
  List.last (x :: l) d = List.last l x.
Proof.
  revert x d. induction l as [|y l IH]; intros x d; [reflexivity|].
  change (List.last (x :: y :: l) d) with (List.last (y :: l) d).
  rewrite (IH y d). symmetry. apply (IH y x).
Qed.

Section RetryLoop.

Context {St A : Type}.
Variable max_retries : Z.
Variable base_delay : Q.
Variable func_name : string.
Variable func : St -> result A * St.

Local Abbreviation loop := (retry_loop max_retries base_delay func_name func).

Lemma loop_nil (last : option exn) (s : St) :
  loop [] last s = (raise_last last, s, []).
Proof. destruct last; reflexivity. Qed.

Lemma loop_return (a : Z) (rest : list Z) (last : option exn) (s s' : St) (v : A) :
  func s = (Return v, s') ->
  loop (a :: rest) last s = (Return v, s', [Call None]).
Proof. intro E. cbn [retry_loop]. now rewrite E. Qed.

Lemma loop_fatal (a : Z) (rest : list Z) (last : option exn) (s s' : St) (e : exn) :
  func s = (Raise e, s') -> is_rate_limit e = false ->
  loop (a :: rest) last s = (Raise e, s', [Call (Some e)]).
Proof. intros E R. cbn [retry_loop]. now rewrite E, R. Qed.

Lemma loop_retry (a : Z) (rest : list Z) (last : option exn) (s s' : St) (e : exn) :
  func s = (Raise e, s') -> is_rate_limit e = true -> (a < max_retries)%Z ->
  loop (a :: rest) last s =
  (outcome (loop rest (Some e) s'), final_state (loop rest (Some e) s'),
   Call (Some e)
     :: LogWarning func_name (a + 1) max_retries (backoff_delay base_delay a)
     :: Sleep (backoff_delay base_delay a)
     :: events (loop rest (Some e) s')).
Proof.
  intros E R L. apply Z.ltb_lt in L. cbn [retry_loop].
  rewrite E, R, L.
  destruct (retry_loop max_retries base_delay func_name func rest (Some e) s')
    as [[r s''] evs].
  reflexivity.
Qed.

Lemma loop_exhausted (a : Z) (rest : list Z) (last : option exn) (s s' : St) (e : exn) :
  func s = (Raise e, s') -> is_rate_limit e = true -> ~ (a < max_retries)%Z ->
  loop (a :: rest) last s =
  (outcome (loop rest (Some e) s'), final_state (loop rest (Some e) s'),
   Call (Some e) :: LogError func_name max_retries
     :: events (loop rest (Some e) s')).
Proof.
  intros E R L. apply Z.ltb_nlt in L. cbn [retry_loop].
  rewrite E, R, L.
  destruct (retry_loop max_retries base_delay func_name func rest (Some e) s')
    as [[r s''] evs].
  reflexivity.
Qed.

(** One iteration is one of the four cases above. *)
Lemma loop_cases (a : Z) (rest : list Z) (last : option exn) (s : St) :
  (exists v s', func s = (Return v, s')
     /\ outcome (loop (a :: rest) last s) = Return v
     /\ events (loop (a :: rest) last s) = [Call None])
  \/ (exists e s', func s = (Raise e, s') /\ is_rate_limit e = false
        /\ outcome (loop (a :: rest) last s) = Raise e
        /\ events (loop (a :: rest) last s) = [Call (Some e)])
  \/ (exists e s', func s = (Raise e, s') /\ is_rate_limit e = true
        /\ (a < max_retries)%Z
        /\ outcome (loop (a :: rest) last s) = outcome (loop rest (Some e) s')
        /\ events (loop (a :: rest) last s) =
           Call (Some e)
             :: LogWarning func_name (a + 1) max_retries
                  (backoff_delay base_delay a)
             :: Sleep (backoff_delay base_delay a)
             :: events (loop rest (Some e) s'))
  \/ (exists e s', func s = (Raise e, s') /\ is_rate_limit e = true
        /\ ~ (a < max_retries)%Z
        /\ outcome (loop (a :: rest) last s) = outcome (loop rest (Some e) s')
        /\ events (loop (a :: rest) last s) =
           Call (Some e) :: LogError func_name max_retries
             :: events (loop rest (Some e) s')).
Proof.
  destruct (func s) as [[v | e] s'] eqn:E.
  - left. exists v, s'. rewrite (loop_return a rest last s s' v E). now repeat split.
  - right. destruct (is_rate_limit e) eqn:R.
    + right. destruct (Z_lt_dec a max_retries) as [L | L].
      * left. exists e, s'. rewrite (loop_retry a rest last s s' e E R L).
        now repeat split.
      * right. exists e, s'. rewrite (loop_exhausted a rest last s s' e E R L).
        now repeat split.
    + left. exists e, s'. rewrite (loop_fatal a rest last s s' e E R).
      now repeat split.
Qed.

(** Every attempt made starts with a call. *)
Lemma loop_starts_with_call (a : Z) (rest : list Z) (last : option exn) (s : St) :
  exists c evs, events (loop (a :: rest) last s) = Call c :: evs.
Proof.
  destruct (loop_cases a rest last s)
    as [(v & s' & _ & _ & E) | [(e & s' & _ & _ & _ & E)
        | [(e & s' & _ & _ & _ & _ & E) | (e & s' & _ & _ & _ & _ & E)]]];
    rewrite E; eauto.
Qed.

(** At most one call per attempt. *)
Lemma loop_calls_bound (attempts : list Z) (last : option exn) (s : St) :
  (length (calls (events (loop attempts last s))) <= length attempts)%nat.
Proof.
  revert last s. induction attempts as [|a rest IH]; intros last s.
  - rewrite loop_nil. simpl. lia.
  - destruct (loop_cases a rest last s)
      as [(v & s' & _ & _ & E) | [(e & s' & _ & _ & _ & E)
          | [(e & s' & _ & _ & _ & _ & E) | (e & s' & _ & _ & _ & _ & E)]]];
      rewrite E; cbn [calls length];
      try specialize (IH (Some e) s'); lia.
Qed.

(** When every call fails with a retryable error, every attempt is made
    and the exception of the last call is raised. *)
Lemma loop_all_retryable (attempts : list Z) (last : option exn) (s : St) :
  Forall retryable_failure (calls (events (loop attempts last s))) ->
  length (calls (events (loop attempts last s))) = length attempts
  /\ outcome (loop attempts last s)
     = raise_last (List.last (calls (events (loop attempts last s))) last).
Proof.
  revert last s. induction attempts as [|a rest IH]; intros last s.
  - rewrite loop_nil. intros _. split; reflexivity.
  - destruct (loop_cases a rest last s)
      as [(v & s' & _ & O & E) | [(e & s' & _ & R & O & E)
          | [(e & s' & _ & R & _ & O & E) | (e & s' & _ & R & _ & O & E)]]];
      rewrite E, O; cbn [calls]; intro HF.
    + inversion HF as [|? ? (e & He & _) _]. discriminate.
    + inversion HF as [|? ? (e' & He & R') _]. congruence.
    + inversion HF as [|? ? _ HF']. destruct (IH (Some e) s' HF') as [IH1 IH2].
      split; [cbn [length]; congruence|].
      rewrite IH2. f_equal. symmetry. apply last_cons_default.
    + inversion HF as [|? ? _ HF']. destruct (IH (Some e) s' HF') as [IH1 IH2].
      split; [cbn [length]; congruence|].
      rewrite IH2. f_equal. symmetry. apply last_cons_default.
Qed.

(** A call that fails with an error that is not retryable ends the run:
    nothing follows it, and its exception is what the run raises. *)
Lemma loop_fatal_is_last (attempts : list Z) (last : option exn) (s : St)
    (pre post : list event) (e : exn) :
  events (loop attempts last s) = pre ++ Call (Some e) :: post ->
  is_rate_limit e = false ->
  post = [] /\ outcome (loop attempts last s) = Raise e.
Proof.
  revert last s pre. induction attempts as [|a rest IH]; intros last s pre.
  - rewrite loop_nil. unfold events. cbn [snd]. intro H.
    destruct pre; discriminate.
  - destruct (loop_cases a rest last s)
      as [(v & s' & _ & O & E) | [(e0 & s' & _ & R & O & E)
          | [(e0 & s' & _ & R & _ & O & E) | (e0 & s' & _ & R & _ & O & E)]]];
      rewrite E, O; intros H Hn.
    + destruct pre as [|x [|y pre]]; discriminate.
    + destruct pre as [|x [|y pre]]; try discriminate.
      injection H as He Hp. subst. now split.
    + destruct pre as [|x [|y [|z pre]]]; try discriminate.
      * injection H as He _. congruence.
      * injection H as _ _ _ H. exact (IH _ _ _ H Hn).
    + destruct pre as [|x [|y pre]]; try discriminate.
      * injection H as He _. congruence.
      * injection H as _ _ H. exact (IH _ _ _ H Hn).
Qed.

Lemma attempts_from_succ (k n : nat) :
  attempts_from k (S n) = Z.of_nat k :: attempts_from (S k) n.
Proof. reflexivity. Qed.

(** A call that fails with a retryable error is followed by the warning,
    the sleep of the backoff policy and the next call while retries
    remain; after the last retry it is followed by the error log and the
    run raises its exception.  [i] is the index of the attempt. *)
Lemma loop_retryable_continues (n : nat) :
  forall (k : nat) (last : option exn) (s : St) (pre post : list event) (e : exn),
  (Z.of_nat k + Z.of_nat n = max_retries + 1)%Z ->
  events (loop (attempts_from k n) last s) = pre ++ Call (Some e) :: post ->
  is_rate_limit e = true ->
  let i := (Z.of_nat k + Z.of_nat (length (calls pre)))%Z in
  ((i < max_retries)%Z
   /\ exists c post',
        post = LogWarning func_name (i + 1) max_retries (backoff_delay base_delay i)
                 :: Sleep (backoff_delay base_delay i) :: Call c :: post')
  \/ (i = max_retries
      /\ post = [LogError func_name max_retries]
      /\ outcome (loop (attempts_from k n) last s) = Raise e).
Proof.
  induction n as [|n IH]; intros k last s pre post e Hkn.
  - change (attempts_from k 0) with (@nil Z). rewrite loop_nil.
    unfold events. cbn [snd]. intro H. destruct pre; discriminate.
  - rewrite attempts_from_succ.
    destruct (loop_cases (Z.of_nat k) (attempts_from (S k) n) last s)
      as [(v & s' & _ & O & E) | [(e0 & s' & _ & R & O & E)
          | [(e0 & s' & _ & R & L & O & E) | (e0 & s' & _ & R & L & O & E)]]];
      rewrite E, O; intros H He i; subst i.
    + destruct pre as [|x [|y pre]]; discriminate.
    + destruct pre as [|x [|y pre]]; try discriminate.
      injection H as H _. congruence.
    + destruct pre as [|x [|y [|z pre]]]; try discriminate.
      * injection H as H1 H2. subst e0. left. cbn [calls length].
        rewrite Z.add_0_r. split; [exact L|].
        destruct n as [|n]; [lia|]. rewrite attempts_from_succ in H2.
        destruct (loop_starts_with_call (Z.of_nat (S k)) (attempts_from (S (S k)) n)
                    (Some e) s') as (c & evs & Hc).
        exists c, evs. rewrite <- H2, Hc. reflexivity.
      * injection H as Hx Hy Hz H. subst x y z. cbn [calls length].
        replace (Z.of_nat k + Z.of_nat (S (length (calls pre))))%Z
          with (Z.of_nat (S k) + Z.of_nat (length (calls pre)))%Z by lia.
        apply (IH (S k) (Some e0) s' pre post e); [lia | exact H | exact He].
    + assert (n = 0%nat) by lia. subst n.
      change (attempts_from (S k) 0) with (@nil Z) in *.
      rewrite loop_nil in *. unfold events at 1 in H. cbn [snd] in H.
      destruct pre as [|x [|y pre]]; try discriminate.
      * injection H as H1 H2. subst e0 post. right. cbn [calls length].
        repeat split. lia.
      * destruct pre; discriminate.
Qed.

(** The sleeps of a run are the backoff delays of the attempts before its
    last call, in order. *)
Lemma loop_sleeps (n : nat) :
  forall (k : nat) (last : option exn) (s : St),
  (Z.of_nat k + Z.of_nat n = max_retries + 1)%Z -> (0 < n)%nat ->
  sleeps (events (loop (attempts_from k n) last s)) =
  map (backoff_delay base_delay)
    (attempts_from k (length (calls (events (loop (attempts_from k n) last s))) - 1)).
Proof.
  induction n as [|n IH]; intros k last s Hkn Hn; [lia|].
  rewrite attempts_from_succ.
  destruct (loop_cases (Z.of_nat k) (attempts_from (S k) n) last s)
    as [(v & s' & _ & O & E) | [(e0 & s' & _ & R & O & E)
        | [(e0 & s' & _ & R & L & O & E) | (e0 & s' & _ & R & L & O & E)]]];
    rewrite E; cbn [sleeps calls length]; try reflexivity.
  - rewrite Nat.sub_succ, Nat.sub_0_r.
    destruct n as [|n]; [lia|].
    rewrite (IH (S k) (Some e0) s') by lia.
    rewrite attempts_from_succ.
    destruct (loop_starts_with_call (Z.of_nat (S k)) (attempts_from (S (S k)) n)
                (Some e0) s') as (c & evs & Hc).
    rewrite Hc. cbn [calls length]. rewrite Nat.sub_succ, Nat.sub_0_r.
    rewrite (attempts_from_succ k). reflexivity.
  - assert (n = 0%nat) by lia. subst n.
    change (attempts_from (S k) 0) with (@nil Z). rewrite loop_nil.
    reflexivity.
Qed.

(** The wrapper is the loop over the attempts 0 .. max_retries. *)
Lemma wrapper_loop (s : St) :
  wrapper max_retries base_delay func_name func s
  = loop (attempts_from 0 (Z.to_nat (max_retries + 1))) None s.
Proof. reflexivity. Qed.

End RetryLoop.

(* ===================================================================== *)
(** ** The wrapper *)

Lemma py_range_attempts (m : Z) : py_range m = attempts_from 0 (Z.to_nat m).
Proof. reflexivity. Qed.




(* ===================================================================== *)
(** ** The runs of test_tools.py and of the specification's examples *)

(** test_mortgage_fha: the payment is within the asserted range. *)
Example test_mortgage_fha :
  exists d m,
    outcome (calculate_mortgage 365000 (35 # 10) (68 # 10) 30 tt) = Return d
    /\ dict_get "monthly_payment" d = Some (VFloat m)
    /\ m == 2296.24 /\ 2200 < m /\ m < 2400.
Proof.
  eexists. eexists. split; [vm_compute; reflexivity|].
  split; [reflexivity|]. split; [reflexivity|]. split; reflexivity.
Qed.

(** The interest is taken from the unrounded payment: rounding the payment
    first would give another figure. *)
Example fha_interest_from_unrounded_payment :
  py_round (MortgageSpec.total_interest 365000 (35 # 10) (68 # 10) 30) 2
  == 474422.66
  /\ py_round
       (py_round (MortgageSpec.monthly_payment 365000 (35 # 10) (68 # 10) 30) 2
        * inject_Z (MortgageSpec.n 30)
        - MortgageSpec.loan_amount 365000 (35 # 10)) 2
     == 474421.40.
Proof. split; vm_compute; reflexivity. Qed.

(** test_cashflow_house_hack: the cash flow is negative. *)
Example test_cashflow_house_hack :
  exists d,
    outcome (calculate_cashflow 1450 2312 280 145 5 5 365000 (12775 + 5000) tt)
    = Return d
    /\ dict_get2 "expenses" "total_monthly" d = Some (VFloat 2882)
    /\ dict_get "monthly_cash_flow" d = Some (VFloat (-(1432 # 1)))
    /\ dict_get "rent_to_price_ratio" d = Some (VFloat (1 # 250)).
Proof. eexists. split; [vm_compute; reflexivity|]. repeat split. Qed.

(** RESOURCE_EXHAUSTED on the first two calls, success on the third: the
    value is returned after sleeps of base_delay and base_delay * 2. *)
Example retry_two_failures_then_success :
  let run := retry_on_rate_limit 5 2 "call_model" flaky 2%nat in
  outcome run = Return 42%Z
  /\ sleeps (events run) = [2; 4]
  /\ length (calls (events run)) = 3%nat.
Proof. vm_compute. repeat split. Qed.

(** An error that is not a rate limit leaves on the first call. *)
Example retry_other_error_propagates :
  let e := mk_exn "ValueError" "invalid literal for int()" in
  let run := retry_on_rate_limit 5 2 "parse" (pure_call (A := Z) (Raise e)) tt in
  outcome run = Raise e /\ events run = [Call (Some e)].
Proof. vm_compute. split; reflexivity. Qed.

(** The test on the message ignores case, and only looks for the two
    phrases. *)
Example rate_limit_messages :
  is_rate_limit (mk_exn "ClientError" "429 Resource_Exhausted: quota") = true
  /\ is_rate_limit (mk_exn "HTTPError" "Rate Limit exceeded") = true
  /\ is_rate_limit (mk_exn "HTTPError" "rate-limit exceeded") = false
  /\ is_rate_limit ZeroDivisionError = false.
Proof. vm_compute. repeat split. Qed.

(** With a negative number of attempts the loop body never runs, and the
    final raise has nothing to raise. *)
Example retry_no_attempt :
  retry_on_rate_limit (-1) 2 "call_model" flaky 2%nat
  = (Raise TypeError_raise_None, 2%nat, []).
Proof. reflexivity. Qed.

(* ===================================================================== *)
(** ** More on rounding *)

Lemma pow10_pos (ndigits : Z) : 0 < 10 ^ ndigits.
Proof. apply Qpower_0_lt. reflexivity. Qed.

Lemma round_half_even_bounds (x : Q) :
  inject_Z (round_half_even x) - x <= 1 # 2
  /\ x - inject_Z (round_half_even x) <= 1 # 2.
Proof.
  unfold round_half_even.
  pose proof (Qfloor_le x) as Hlo. pose proof (Qlt_floor x) as Hhi.
  rewrite inject_Z_plus in Hhi. change (inject_Z 1) with 1 in Hhi.
  destruct (Qcompare_spec (x - inject_Z (Qfloor x)) (1 # 2)) as [E | L | G].
  - destruct (Z.even (Qfloor x)).
    + split; lra.
    + rewrite inject_Z_plus. change (inject_Z 1) with 1. split; lra.
  - split; lra.
  - rewrite inject_Z_plus. change (inject_Z 1) with 1. split; lra.
Qed.

Lemma round_half_even_nonneg (x : Q) : 0 <= x -> (0 <= round_half_even x)%Z.
Proof.
  intro H. unfold round_half_even.
  assert (Hf : (0 <= Qfloor x)%Z).
  { change 0%Z with (Qfloor 0). now apply Qfloor_resp_le. }
  destruct (Qcompare _ _); [destruct (Z.even _)| |]; lia.
Qed.

Lemma round_half_even_mono (x y : Q) :
  x <= y -> (round_half_even x <= round_half_even y)%Z.
Proof.
  intro H. pose proof (Qfloor_resp_le x y H) as Hf.
  assert (Hx : (Qfloor x <= round_half_even x <= Qfloor x + 1)%Z).
  { unfold round_half_even.
    destruct (Qcompare _ _); [destruct (Z.even _)| |]; lia. }
  assert (Hy : (Qfloor y <= round_half_even y <= Qfloor y + 1)%Z).
  { unfold round_half_even.
    destruct (Qcompare _ _); [destruct (Z.even _)| |]; lia. }
  destruct (Z.eq_dec (Qfloor x) (Qfloor y)) as [E | N]; [|lia].
  unfold round_half_even. rewrite <- E.
  destruct (Qcompare_spec (x - inject_Z (Qfloor x)) (1 # 2)) as [Ex | Lx | Gx];
    destruct (Qcompare_spec (y - inject_Z (Qfloor x)) (1 # 2)) as [Ey | Ly | Gy];
    try destruct (Z.even (Qfloor x)); try lia; exfalso; lra.
Qed.

Lemma round_half_even_Z (z : Z) : round_half_even (inject_Z z) = z.
Proof.
  unfold round_half_even. rewrite Qfloor_Z.
  destruct (Qcompare_spec (inject_Z z - inject_Z z) (1 # 2)) as [E | L | G];
    [exfalso; lra | reflexivity | exfalso; lra].
Qed.

(** [round(x, n)] as a number. *)
Lemma py_round_value (x : Q) (ndigits : Z) :
  py_round x ndigits
  == inject_Z (round_half_even (x * 10 ^ ndigits)) / 10 ^ ndigits.
Proof. unfold py_round. apply Qred_correct. Qed.

Lemma py_round_nonneg (x : Q) (ndigits : Z) : 0 <= x -> 0 <= py_round x ndigits.
Proof.
  intro H. rewrite py_round_value. pose proof (pow10_pos ndigits) as Hp.
  apply Qle_shift_div_l; [exact Hp|]. rewrite Qmult_0_l.
  change 0 with (inject_Z 0). rewrite <- Zle_Qle.
  apply round_half_even_nonneg. apply Qmult_le_0_compat; lra.
Qed.

Lemma py_round_mono (x y : Q) (ndigits : Z) :
  x <= y -> py_round x ndigits <= py_round y ndigits.
Proof.
  intro H. rewrite !py_round_value. pose proof (pow10_pos ndigits) as Hp.
  unfold Qdiv. apply Qmult_le_compat_r.
  - rewrite <- Zle_Qle. apply round_half_even_mono.
    apply Qmult_le_compat_r; lra.
  - apply Qlt_le_weak. now apply Qinv_lt_0_compat.
Qed.

(** Rounding a rounded number changes nothing. *)
Lemma py_round_idem (x : Q) (ndigits : Z) :
  py_round (py_round x ndigits) ndigits = py_round x ndigits.
Proof.
  unfold py_round at 1 3. apply Qred_complete.
  pose proof (pow10_pos ndigits) as Hp.
  rewrite (round_half_even_comp (py_round x ndigits * 10 ^ ndigits)
             (inject_Z (round_half_even (x * 10 ^ ndigits)))).
  - now rewrite round_half_even_Z.
  - rewrite py_round_value. field. lra.
Qed.

(** To two decimals the rounding error is at most half a cent. *)
Lemma py_round_2_error (x : Q) :
  py_round x 2 - x <= 1 # 200 /\ x - py_round x 2 <= 1 # 200.
Proof.
  rewrite py_round_value. change (10 ^ 2) with 100.
  destruct (round_half_even_bounds (x * 100)) as [H1 H2].
  set (z := inject_Z (round_half_even (x * 100))) in *.
  split.
  - setoid_replace (z / 100 - x) with ((z - x * 100) * (1 # 100)) by field. lra.
  - setoid_replace (x - z / 100) with ((x * 100 - z) * (1 # 100)) by field. lra.
Qed.

(** Three amounts that add up still add up to a cent after each is rounded. *)
Lemma rounded_sum_within_a_cent (a b c : Q) :
  a + b == c ->
  py_round a 2 + py_round b 2 - py_round c 2 <= 1 # 100
  /\ py_round c 2 - (py_round a 2 + py_round b 2) <= 1 # 100.
Proof.
  intro H.
  destruct (py_round_2_error a) as [Ha1 Ha2].
  destruct (py_round_2_error b) as [Hb1 Hb2].
  destruct (py_round_2_error c) as [Hc1 Hc2].
  rewrite !py_round_value in *. change (10 ^ 2) with 100 in *.
  set (za := round_half_even (a * 100)) in *.
  set (zb := round_half_even (b * 100)) in *.
  set (zc := round_half_even (c * 100)) in *.
  assert (E : inject_Z za / 100 + inject_Z zb / 100 - inject_Z zc / 100
              == inject_Z (za + zb - zc) * (1 # 100)).
  { unfold Z.sub. rewrite !inject_Z_plus, inject_Z_opp. field. }
  assert (Hlt : inject_Z (za + zb - zc) < inject_Z 2).
  { change (inject_Z 2) with 2. lra. }
  assert (Hgt : inject_Z (-2) < inject_Z (za + zb - zc)).
  { change (inject_Z (-2)) with (-(2 # 1)). lra. }
  rewrite <- Zlt_Qlt in Hlt, Hgt.
  assert (H1 : inject_Z (za + zb - zc) <= inject_Z 1) by (rewrite <- Zle_Qle; lia).
  assert (H2 : inject_Z (-1) <= inject_Z (za + zb - zc)) by (rewrite <- Zle_Qle; lia).
  change (inject_Z 1) with 1 in H1. change (inject_Z (-1)) with (-(1 # 1)) in H2.
  split; lra.
Qed.

(* ===================================================================== *)
(** ** More on calculate_mortgage *)

Lemma Qpower_succ_nat (x : Q) (m : nat) :
  ~ x == 0 -> x ^ Z.of_nat (S m) == x * x ^ Z.of_nat m.
Proof.
  intro Hx. rewrite Nat2Z.inj_succ. unfold Z.succ.
  rewrite Qpower_plus by exact Hx. rewrite Qpower_1_r. ring.
Qed.

(** Compounding over [m] periods gains at most [m] times the rate on the
    compounded amount. *)
Lemma compounding_bound (r : Q) (m : nat) :
  0 <= r ->
  (1 + r) ^ Z.of_nat m - 1 <= inject_Z (Z.of_nat m) * r * (1 + r) ^ Z.of_nat m.
Proof.
  intro Hr. assert (Hne : ~ 1 + r == 0) by (intro E; lra).
  induction m as [|m IH].
  - change ((1 + r) ^ Z.of_nat 0) with 1.
    change (inject_Z (Z.of_nat 0)) with 0. lra.
  - rewrite (Qpower_succ_nat _ m Hne).
    rewrite Nat2Z.inj_succ. unfold Z.succ. rewrite inject_Z_plus.
    change (inject_Z 1) with 1.
    assert (Hg : 1 <= (1 + r) ^ Z.of_nat m).
    { apply Qpower_1_le; [lra | lia]. }
    set (g := (1 + r) ^ Z.of_nat m) in *.
    set (k := inject_Z (Z.of_nat m)) in *.
    assert (Hk : 0 <= k).
    { subst k. change 0 with (inject_Z 0). rewrite <- Zle_Qle. lia. }
    nra.
Qed.

(** Over the term the payments return at least the principal. *)
Lemma payments_cover_principal (rate : Q) (term : Z) :
  0 < rate -> (0 < term)%Z ->
  let monthly_rate := rate / 100 / 12 in
  let num_payments := (term * 12)%Z in
  1 <= (monthly_rate * (1 + monthly_rate) ^ num_payments)
       / ((1 + monthly_rate) ^ num_payments - 1)
       * inject_Z num_payments.
Proof.
  intros Hr Ht monthly_rate num_payments.
  assert (Hmr : 0 < monthly_rate) by (now apply monthly_rate_pos).
  assert (Hg : 1 < (1 + monthly_rate) ^ num_payments).
  { apply growth_gt_1; [exact Hmr | subst num_payments; lia]. }
  pose proof (compounding_bound monthly_rate (Z.to_nat num_payments)) as Hb.
  rewrite Z2Nat.id in Hb by (subst num_payments; lia).
  specialize (Hb (Qlt_le_weak _ _ Hmr)).
  set (g := (1 + monthly_rate) ^ num_payments) in *.
  set (k := inject_Z num_payments) in *.
  setoid_replace (monthly_rate * g / (g - 1) * k)
    with ((k * monthly_rate * g) / (g - 1)) by (field; lra).
  apply Qle_shift_div_l; lra.
Qed.

Lemma loan_amount_nonneg (price pct : Q) :
  0 < price -> pct <= 100 -> 0 <= price - price * (pct / 100).
Proof.
  intros Hp Hd.
  setoid_replace (price - price * (pct / 100))
    with (price * ((100 - pct) * (1 # 100))) by field.
  apply Qmult_le_0_compat; lra.
Qed.

(** The exact figures behind a mortgage record, in either branch: the down
    payment, the loan, the payment, the interest and the total cost that the
    record shows rounded. *)
Lemma mortgage_record_figures (price pct rate : Q) (term : Z) :
  valid_mortgage_input price pct rate term ->
  exists (d : dict) (down loan payment interest cost : Q),
    calculate_mortgage_wrapped price pct rate term = Return d
    /\ dict_get "price" d = Some (VFloat (py_round price 2))
    /\ dict_get "down_payment_amount" d = Some (VFloat (py_round down 2))
    /\ dict_get "loan_amount" d = Some (VFloat (py_round loan 2))
    /\ dict_get "monthly_payment" d = Some (VFloat (py_round payment 2))
    /\ dict_get "total_interest" d = Some (VFloat (py_round interest 2))
    /\ dict_get "total_cost" d = Some (VFloat (py_round cost 2))
    /\ down + loan == price /\ interest + price == cost
    /\ 0 <= down /\ 0 <= loan /\ 0 <= payment /\ 0 <= interest.
Proof.
  intro Hv. rewrite (calculate_mortgage_wrapped_valid _ _ _ _ Hv).
  destruct Hv as (Hp & (Hd0 & Hd100) & Hr & Ht).
  pose proof (loan_amount_nonneg price pct Hp Hd100) as Hloan.
  assert (Hdown : 0 <= price * (pct / 100)).
  { apply Qmult_le_0_compat; [lra|]. apply Qle_shift_div_l; lra. }
  destruct (Qeq_bool (price - price * (pct / 100)) 0) eqn:E.
  - apply Qeq_bool_iff in E.
    exists
      [ ("price"%string, VFloat (py_round price 2));
        ("down_payment_pct"%string, VFloat pct);
        ("down_payment_amount"%string, VFloat (py_round (price * (pct / 100)) 2));
        ("loan_amount"%string, VFloat 0);
        ("monthly_payment"%string, VFloat 0);
        ("total_interest"%string, VFloat 0);
        ("total_cost"%string, VFloat (py_round price 2)) ],
      (price * (pct / 100)), 0, 0, 0, price.
    rewrite !py_round_0. repeat split; try reflexivity; lra.
  - pose proof (payments_cover_principal rate term Hr Ht) as Hcov.
    cbv zeta in Hcov.
    pose proof (amortization_denominator rate term Hr Ht) as Hden.
    pose proof (growth_gt_1 (rate / 100 / 12) (term * 12)
                  (monthly_rate_pos rate Hr) ltac:(lia)) as Hg.
    set (loan := price - price * (pct / 100)) in *.
    set (mr := rate / 100 / 12) in *.
    set (g := (1 + mr) ^ (term * 12)) in *.
    set (k := inject_Z (term * 12)) in *.
    set (factor := mr * g / (g - 1)) in *.
    assert (Hmr : 0 < mr) by (subst mr; now apply monthly_rate_pos).
    assert (Hfac : 0 <= factor).
    { subst factor. apply Qle_shift_div_l; [lra|]. rewrite Qmult_0_l.
      apply Qmult_le_0_compat; lra. }
    exists (amortized_record price pct rate term),
      (price * (pct / 100)), loan, (loan * factor),
      (loan * factor * k - loan), (price * (pct / 100) + loan * factor * k).
    repeat split; try reflexivity; trivial.
    + subst loan. ring.
    + subst loan. ring.
    + apply Qmult_le_0_compat; assumption.
    + setoid_replace (loan * factor * k - loan) with (loan * (factor * k - 1)) by ring.
      apply Qmult_le_0_compat; lra.
Qed.







(* ===================================================================== *)
(** ** More on calculate_cashflow *)



Lemma py_round_nonpos (x : Q) (ndigits : Z) : x <= 0 -> py_round x ndigits <= 0.
Proof.
  intro H. rewrite <- (py_round_0 ndigits). now apply py_round_mono.
Qed.



(** Higher expenses never show as a better cash flow: raising the mortgage
    payment, the taxes or the insurance, everything else equal, cannot raise
    the reported monthly_cash_flow. *)
Theorem calculate_cashflow_monotone {St : Type}
    (rent mortgage1 mortgage2 taxes1 taxes2 insurance1 insurance2
     vac mnt price invested : Q) (s : St) :
  0 <= rent -> 0 <= mortgage1 ->
  mortgage1 <= mortgage2 -> taxes1 <= taxes2 -> insurance1 <= insurance2 ->
  exists (d1 d2 : dict) (flow1 flow2 : Q),
    outcome
      (calculate_cashflow rent mortgage1 taxes1 insurance1 vac mnt price invested s)
    = Return d1
    /\ outcome
         (calculate_cashflow rent mortgage2 taxes2 insurance2 vac mnt price invested s)
       = Return d2
    /\ dict_get "monthly_cash_flow" d1 = Some (VFloat flow1)
    /\ dict_get "monthly_cash_flow" d2 = Some (VFloat flow2)
    /\ flow2 <= flow1.
Proof.
  intros Hr Hm1 Hm Ht Hi. eexists. eexists. eexists. eexists.
  rewrite !calculate_cashflow_run. unfold outcome. cbn [fst].
  rewrite !calculate_cashflow_wrapped_valid by (split; lra).
  split; [reflexivity|]. split; [reflexivity|]. unfold cashflow_record.
  split; [reflexivity|]. split; [reflexivity|].
  apply py_round_mono. lra.
Qed.

Lemma calculate_cashflow_monotone_witness :
  exists (d1 d2 : dict) (flow1 flow2 : Q),
    outcome (calculate_cashflow 2900 2200 280 145 5 5 365000 17775 tt) = Return d1
    /\ outcome (calculate_cashflow 2900 2312 300 150 5 5 365000 17775 tt) = Return d2
    /\ dict_get "monthly_cash_flow" d1 = Some (VFloat flow1)
    /\ dict_get "monthly_cash_flow" d2 = Some (VFloat flow2)
    /\ flow2 <= flow1.
Proof.
  apply (calculate_cashflow_monotone 2900 2200 2312 280 300 145 150 5 5 365000
           17775 tt); discriminate.
Defined.



(* ===================================================================== *)
(** ** More on the retry loop *)

Section RetryRuns.

Context {St A : Type}.
Variable max_retries : Z.
Variable base_delay : Q.
Variable func_name : string.
Variable func : St -> result A * St.

Local Abbreviation loop := (retry_loop max_retries base_delay func_name func).

(** What the warning of attempt [a] reports. *)
Local Abbreviation warning_of :=
  (fun a : Z => (func_name, (a + 1)%Z, max_retries, backoff_delay base_delay a)).

(** The outcome and the final state of a run are those of its last call. *)
Lemma loop_last_call (attempts : list Z) :
  forall (last : option exn) (s : St),
  attempts <> [] ->
  exists m : nat,
    length (calls (events (loop attempts last s))) = S m
    /\ func (state_after func m s)
       = (outcome (loop attempts last s), final_state (loop attempts last s)).
Proof.
  induction attempts as [|a rest IH]; intros last s Hne; [congruence|].
  destruct (func s) as [[v | e] s'] eqn:E.
  - rewrite (loop_return _ _ _ _ a rest last s s' v E). exists 0%nat.
    split; [reflexivity | exact E].
  - destruct (is_rate_limit e) eqn:R.
    + assert (Hrest :
        exists m : nat,
          length (calls (events (loop rest (Some e) s'))) = m
          /\ (m = 0%nat -> rest = [])
          /\ (rest <> [] -> exists m', m = S m'
                /\ func (state_after func m' s')
                   = (outcome (loop rest (Some e) s'),
                      final_state (loop rest (Some e) s')))).
      { eexists. split; [reflexivity|]. split.
        - intro H0. destruct rest as [|b rest']; [reflexivity|].
          destruct (loop_starts_with_call max_retries base_delay func_name func
                      b rest' (Some e) s') as (c & evs & Hc).
          rewrite Hc in H0. discriminate.
        - intro Hr. destruct (IH (Some e) s' Hr) as (m' & Hm' & Hf). eauto. }
      destruct Hrest as (m & Hm & Hz & Hs).
      assert (Hstep :
        events (loop (a :: rest) last s)
        = Call (Some e) :: match (a <? max_retries)%Z with
                           | true => LogWarning func_name (a + 1) max_retries
                                       (backoff_delay base_delay a)
                                     :: Sleep (backoff_delay base_delay a)
                                     :: events (loop rest (Some e) s')
                           | false => LogError func_name max_retries
                                      :: events (loop rest (Some e) s')
                           end
        /\ outcome (loop (a :: rest) last s) = outcome (loop rest (Some e) s')
        /\ final_state (loop (a :: rest) last s)
           = final_state (loop rest (Some e) s')).
      { destruct (Z_lt_dec a max_retries) as [L | L].
        - rewrite (loop_retry _ _ _ _ a rest last s s' e E R L).
          apply Z.ltb_lt in L. rewrite L. repeat split.
        - rewrite (loop_exhausted _ _ _ _ a rest last s s' e E R L).
          apply Z.ltb_nlt in L. rewrite L. repeat split. }
      destruct Hstep as (Hev & Hout & Hfin). rewrite Hev, Hout, Hfin.
      assert (Hcalls :
        calls (Call (Some e)
                 :: (if (a <? max_retries)%Z
                     then LogWarning func_name (a + 1) max_retries
                            (backoff_delay base_delay a)
                          :: Sleep (backoff_delay base_delay a)
                          :: events (loop rest (Some e) s')
                     else LogError func_name max_retries
                          :: events (loop rest (Some e) s')))
        = Some e :: calls (events (loop rest (Some e) s'))).
      { destruct (a <? max_retries)%Z; reflexivity. }
      rewrite Hcalls. cbn [length]. rewrite Hm.
      destruct rest as [|b rest'].
      * exists 0%nat. rewrite loop_nil in *. cbn in Hm. subst m.
        split; [reflexivity|]. cbn [state_after]. rewrite E. reflexivity.
      * destruct (Hs ltac:(discriminate)) as (m' & -> & Hf).
        exists (S m'). split; [reflexivity|].
        cbn [state_after]. rewrite E. cbn [snd]. exact Hf.
    + rewrite (loop_fatal _ _ _ _ a rest last s s' e E R). exists 0%nat.
      split; [reflexivity | exact E].
Qed.

(** After [k] retryable failures the call that returns ends the run with
    its value, as long as the retries last. *)
Lemma loop_recovers (k : nat) :
  forall (j n : nat) (last : option exn) (s s_end : St) (v : A),
  transient_then_return func k s v s_end ->
  (k < n)%nat -> (Z.of_nat j + Z.of_nat k <= max_retries)%Z ->
  outcome (loop (attempts_from j n) last s) = Return v
  /\ final_state (loop (attempts_from j n) last s) = s_end
  /\ length (calls (events (loop (attempts_from j n) last s))) = S k
  /\ sleeps (events (loop (attempts_from j n) last s))
     = map (backoff_delay base_delay) (attempts_from j k)
  /\ error_logs (events (loop (attempts_from j n) last s)) = [].
Proof.
  induction k as [|k IH]; intros j n last s s_end v H Hn Hj.
  - destruct n as [|n]; [lia|]. rewrite attempts_from_succ.
    cbn [transient_then_return] in H.
    rewrite (loop_return _ _ _ _ _ _ last s s_end v H). repeat split.
  - destruct n as [|n]; [lia|]. rewrite attempts_from_succ.
    destruct H as (e & s' & E & R & H).
    assert (L : (Z.of_nat j < max_retries)%Z) by lia.
    assert (Hn' : (k < n)%nat) by lia.
    assert (Hj' : (Z.of_nat (S j) + Z.of_nat k <= max_retries)%Z) by lia.
    rewrite (loop_retry max_retries base_delay func_name func (Z.of_nat j)
               (attempts_from (S j) n) last s s' e E R L).
    destruct (IH (S j) n (Some e) s' s_end v H Hn' Hj')
      as (I1 & I2 & I3 & I4 & I5).
    unfold outcome, final_state, events in *. cbn [fst snd].
    cbn [calls sleeps error_logs length].
    rewrite I3, I4, I5. rewrite (attempts_from_succ j k).
    repeat split; assumption.
Qed.

Lemma loop_warnings (n : nat) :
  forall (k : nat) (last : option exn) (s : St),
  (Z.of_nat k + Z.of_nat n = max_retries + 1)%Z -> (0 < n)%nat ->
  warnings (events (loop (attempts_from k n) last s)) =
  map warning_of
    (attempts_from k (length (calls (events (loop (attempts_from k n) last s))) - 1)).
Proof.
  induction n as [|n IH]; intros k last s Hkn Hn; [lia|].
  rewrite attempts_from_succ.
  destruct (loop_cases max_retries base_delay func_name func
              (Z.of_nat k) (attempts_from (S k) n) last s)
    as [(v & s' & _ & O & E) | [(e0 & s' & _ & R & O & E)
        | [(e0 & s' & _ & R & L & O & E) | (e0 & s' & _ & R & L & O & E)]]];
    rewrite E; cbn [warnings calls length]; try reflexivity.
  - rewrite Nat.sub_succ, Nat.sub_0_r.
    destruct n as [|n]; [lia|].
    rewrite (IH (S k) (Some e0) s') by lia.
    rewrite attempts_from_succ.
    destruct (loop_starts_with_call max_retries base_delay func_name func
                (Z.of_nat (S k)) (attempts_from (S (S k)) n) (Some e0) s')
      as (c & evs & Hc).
    rewrite Hc. cbn [calls length]. rewrite Nat.sub_succ, Nat.sub_0_r.
    rewrite (attempts_from_succ k). reflexivity.
  - assert (n = 0%nat) by lia. subst n.
    change (attempts_from (S k) 0) with (@nil Z). rewrite loop_nil.
    reflexivity.
Qed.

Lemma loop_error_logs (n : nat) :
  forall (k : nat) (last : option exn) (s : St),
  (Z.of_nat k + Z.of_nat n = max_retries + 1)%Z -> (0 < n)%nat ->
  error_logs (events (loop (attempts_from k n) last s)) =
  if all_retryable (calls (events (loop (attempts_from k n) last s)))
  then [(func_name, max_retries)] else [].
Proof.
  induction n as [|n IH]; intros k last s Hkn Hn; [lia|].
  rewrite attempts_from_succ.
  destruct (loop_cases max_retries base_delay func_name func
              (Z.of_nat k) (attempts_from (S k) n) last s)
    as [(v & s' & _ & O & E) | [(e0 & s' & _ & R & O & E)
        | [(e0 & s' & _ & R & L & O & E) | (e0 & s' & _ & R & L & O & E)]]];
    rewrite E; cbn [error_logs calls all_retryable forallb]; try reflexivity.
  - now rewrite R.
  - rewrite R. cbn [andb]. destruct n as [|n]; [lia|].
    apply (IH (S k) (Some e0) s'); lia.
  - assert (n = 0%nat) by lia. subst n.
    change (attempts_from (S k) 0) with (@nil Z). rewrite loop_nil.
    rewrite R. reflexivity.
Qed.

End RetryRuns.

Lemma Qsum_app (l1 l2 : list Q) : Qsum (l1 ++ l2) == Qsum l1 + Qsum l2.
Proof.
  induction l1 as [|x l1 IH]; cbn [Qsum app]; [ring | rewrite IH; ring].
Qed.

Lemma attempts_from_snoc (k : nat) :
  attempts_from 0 (S k) = attempts_from 0 k ++ [Z.of_nat k].
Proof. unfold attempts_from. rewrite seq_S, map_app. reflexivity. Qed.

(** The backoff delays of the first [k] attempts sum to
    base_delay * (2^k - 1). *)
Lemma backoff_total (base_delay : Q) (k : nat) :
  Qsum (map (backoff_delay base_delay) (attempts_from 0 k))
  == base_delay * (inject_Z (2 ^ Z.of_nat k) - 1).
Proof.
  induction k as [|k IH].
  - cbn. ring.
  - rewrite attempts_from_snoc, map_app, Qsum_app, IH.
    cbn [map Qsum]. unfold backoff_delay.
    rewrite Nat2Z.inj_succ, Z.pow_succ_r by lia.
    rewrite inject_Z_mult. change (inject_Z 2) with 2. ring.
Qed.

(* ===================================================================== *)
(** ** More on the wrapper *)

(** With max_retries < 0 the loop has no iteration: the function is never
    called, nothing is logged or slept, and the final [raise last_exception]
    raises TypeError because last_exception is still None. *)
Theorem retry_negative_never_calls {St A : Type} (max_retries : Z) (base_delay : Q)
    (func_name : string) (func : St -> result A * St) (s : St) :
  (max_retries < 0)%Z ->
  retry_on_rate_limit max_retries base_delay func_name func s
  = (Raise TypeError_raise_None, s, []).
Proof.
  intro H. unfold retry_on_rate_limit, wrapper, py_range.
  replace (Z.to_nat (max_retries + 1)) with 0%nat by lia. reflexivity.
Qed.

Lemma retry_negative_never_calls_witness :
  retry_on_rate_limit (-3) 2 "call_model" flaky 0%nat
  = (Raise TypeError_raise_None, 0%nat, []).
Proof.
  apply (retry_negative_never_calls (-3) 2 "call_model" flaky 0%nat). lia.
Defined.








